(** * Special constraint generation for Quint record and tuple operators

    A shallow embedding of [quint/src/types/specialConstraints.ts] together
    with the run-time and library behaviour it relies on (array
    destructuring, [Array.prototype.push], [Number] applied to a BigInt,
    lodash [chunk] and [times], and [mergeInMany] of [@sweet-monads/either]),
    followed by the properties of the generated constraints. *)

From stdpp Require Import base tactics option list numbers strings pretty.

Set Warnings "-register-all".

Open Scope string_scope.
Open Scope list_scope.
Open Scope Z_scope.

(** ** JavaScript run-time behaviour *)

Module Js.

(** The two exceptions the code of this module can raise. *)
Inductive Exception : Type :=
| TypeError
| RangeError.

(** A call either returns a value or throws. *)
Inductive Completion (A : Type) : Type :=
| Normal (a : A)
| Throw (e : Exception).
Arguments Normal {A} a.
Arguments Throw {A} e.

Definition bind {A B} (f : A → Completion B) (m : Completion A) : Completion B :=
  match m with
  | Normal a => f a
  | Throw e => Throw e
  end.

Definition returns {A} (m : Completion A) : Prop := ∃ a, m = Normal a.
Definition throws {A} (m : Completion A) : Prop := ∃ e, m = Throw e.

(** [const [.., p_i, ..] = xs] where [p_i] is itself an array pattern: the
    i-th element is bound when present; when it is missing the nested
    pattern is matched against [undefined], which raises a TypeError. *)
Definition element {A} (xs : list A) (i : nat) : Completion A :=
  match xs !! i with
  | Some x => Normal x
  | None => Throw TypeError
  end.

(** [2^53 - 1] and [2^32 - 1]. *)
Definition MAX_SAFE_INTEGER : Z := 9007199254740991.
Definition MAX_ARRAY_LENGTH : Z := 4294967295.

(** [xs.push(x)]: the length of an array cannot exceed [2^32 - 1]; pushing
    onto a full array raises a RangeError. *)
Definition push {A} (xs : list A) (x : A) : Completion (list A) :=
  if bool_decide (Z.of_nat (length xs) < MAX_ARRAY_LENGTH)
  then Normal (xs ++ [x])
  else Throw RangeError.

(** The Number values that arise from converting a BigInt: finite
    integers and the two infinities. *)
Inductive number : Type :=
| Finite (z : Z)
| Infinity (negative : bool).

(** Round a non-negative integer to the nearest integer with a 53-bit
    significand, ties to even. *)
Definition round53 (m : Z) : Z :=
  let k := Z.log2 m - 52 in
  if bool_decide (k ≤ 0) then m
  else
    let q := m `div` 2 ^ k in
    let r := m `mod` 2 ^ k in
    let half := 2 ^ (k - 1) in
    let q' := if bool_decide (r < half) then q
              else if bool_decide (half < r) then q + 1
              else if Z.even q then q else q + 1 in
    q' * 2 ^ k.

(** [Number(v)] for a BigInt [v]: exact up to [2^53], rounded above it,
    infinite from [2^1024] on. *)
Definition Number (v : Z) : number :=
  let m := round53 (Z.abs v) in
  if bool_decide (2 ^ 1024 ≤ m) then Infinity (bool_decide (v < 0))
  else Finite (Z.sgn v * m).

End Js.

Import Js.

Global Instance completion_ret : MRet Completion := @Normal.
Global Instance completion_bind : MBind Completion := @Js.bind.

(** ** lodash *)

Module Lodash.

(** [chunk(array, size)]: consecutive groups of [size] elements, the last
    one holding what remains; no group at all when [size < 1]. *)
Fixpoint chunk_go {A} (fuel size : nat) (xs : list A) : list (list A) :=
  match fuel, xs with
  | S fuel', _ :: _ => take size xs :: chunk_go fuel' size (drop size xs)
  | _, _ => []
  end.

Definition chunk {A} (xs : list A) (size : nat) : list (list A) :=
  match size with
  | O => []
  | S _ => chunk_go (length xs) size xs
  end.

(** The largest finite Number, [(2^53 - 1) * 2^971]. *)
Definition MAX_INTEGER : Z := (2 ^ 53 - 1) * 2 ^ 971.

(** [toInteger]: infinities are clamped to [±MAX_INTEGER]. *)
Definition toInteger (n : number) : Z :=
  match n with
  | Finite z => z
  | Infinity negative => if negative then - MAX_INTEGER else MAX_INTEGER
  end.

(** [times(n)] with the default (identity) iteratee: the indices
    [0 .. n-1], at most [MAX_ARRAY_LENGTH] of them; the empty array when
    [n < 1] or [n > MAX_SAFE_INTEGER]. *)
Definition times (n : number) : list Z :=
  let n := toInteger n in
  if bool_decide (n < 1 ∨ MAX_SAFE_INTEGER < n) then []
  else seqZ 0 (Z.min n MAX_ARRAY_LENGTH).

End Lodash.

Import Lodash.

(** ** Either, from @sweet-monads/either *)

Module Either.

Inductive Either (L R : Type) : Type :=
| Left (l : L)
| Right (r : R).
Arguments Left {L R} l.
Arguments Right {L R} r.

Definition left {L R} (l : L) : Either L R := Left l.
Definition right {L R} (r : R) : Either L R := Right r.

(** [e.map(f)] *)
Definition map {L R R'} (f : R → R') (e : Either L R) : Either L R' :=
  match e with
  | Left l => Left l
  | Right r => Right (f r)
  end.

(** [e.mapLeft(f)] *)
Definition mapLeft {L L' R} (f : L → L') (e : Either L R) : Either L' R :=
  match e with
  | Left l => Left (f l)
  | Right r => Right r
  end.

(** [mergeInMany(eithers)]: a left-to-right reduction that gathers the
    values of all the [Right]s as long as no [Left] has been met, and
    from the first [Left] on gathers the values of all the [Left]s. *)
Definition mergeInMany_step {L R}
    (res : Either (list L) (list R)) (v : Either L R) : Either (list L) (list R) :=
  match res, v with
  | Left ls, Left l => Left (ls ++ [l])
  | Left ls, Right _ => Left ls
  | Right _, Left l => Left [l]
  | Right rs, Right r => Right (rs ++ [r])
  end.

Definition mergeInMany {L R} (eithers : list (Either L R)) : Either (list L) (list R) :=
  foldl mergeInMany_step (Right []) eithers.

(** The values of the [Left]s, and of the [Right]s, of a list, in order. *)
Definition lefts {L R} (eithers : list (Either L R)) : list L :=
  omap (λ e, match e with Left l => Some l | Right _ => None end) eithers.

Definition rights {L R} (eithers : list (Either L R)) : list R :=
  omap (λ e, match e with Left _ => None | Right r => Some r end) eithers.

End Either.

Import Either.

(** ** Expressions, types, constraints and errors *)

(** Modelled from the spec: [quintIr.ts] is not among the sources. An
    expression node carries a [kind] discriminant and, for the literal
    kinds, the literal value: a string for kind [str], an
    arbitrary-precision integer for kind [int]. Node and source
    identifiers are BigInts. *)
Inductive QuintEx : Type :=
| QuintName (id : Z) (name : string)
| QuintBool (id : Z) (value : bool)
| QuintInt (id : Z) (value : Z)
| QuintStr (id : Z) (value : string)
| QuintApp (id : Z) (opcode : string) (args : list QuintEx)
| QuintLambda (id : Z) (params : list string) (expr : QuintEx)
| QuintLet (id : Z) (opdef : string * QuintEx) (expr : QuintEx).

Definition kind (e : QuintEx) : string :=
  match e with
  | QuintName _ _ => "name"
  | QuintBool _ _ => "bool"
  | QuintInt _ _ => "int"
  | QuintStr _ _ => "str"
  | QuintApp _ _ _ => "app"
  | QuintLambda _ _ _ => "lambda"
  | QuintLet _ _ _ => "let"
  end.

(** One entry [{ fieldName, fieldType }] of a row. *)
Record RowField (T : Type) : Type := mkField { fieldName : string; fieldType : T }.
Arguments mkField {T} fieldName fieldType.
Arguments fieldName {T} r.
Arguments fieldType {T} r.

(** Modelled from the spec: [quintTypes.ts] is not among the sources. Types
    are a tagged union; the tag of each case is given on the right. A row
    lists known fields and continues with another row ([other]), which is
    a row variable, the empty row, or again a list of fields. *)
Inductive QuintType : Type :=
| TBool                                              (* bool *)
| TInt                                               (* int *)
| TStr                                               (* str *)
| TConst (name : string)                             (* const *)
| TVar (name : string)                               (* var *)
| TSet (elem : QuintType)                            (* set *)
| TList (elem : QuintType)                           (* list *)
| TFun (arg res : QuintType)                         (* fun *)
| TOper (args : list QuintType) (res : QuintType)    (* oper *)
| TTup (fields : Row)                                (* tup *)
| TRec (fields : Row)                                (* rec *)
with Row : Type :=
| RowFields (fields : list (RowField QuintType)) (other : Row)   (* row *)
| RowVar (name : string)                                         (* var *)
| RowEmpty.                                                      (* empty *)

(** A type variable [{ kind: 'var', name }]. *)
Record QuintVarType : Type := mkVar { name : string }.

(** Where the code uses a [QuintVarType] as a [QuintType]. *)
Definition varType (v : QuintVarType) : QuintType := TVar (name v).

(** Modelled from the spec: [types/base.ts] is not among the sources. An
    equality constraint holds the two types to unify and the identifier of
    the node it stems from. *)
Inductive Constraint : Type :=
| CEq (types : QuintType * QuintType) (sourceId : Z)             (* eq *)
| CConjunction (constraints : list Constraint) (sourceId : Z)    (* conjunction *)
| CEmpty.                                                        (* empty *)

(** Modelled from the spec: [errorTree.ts] is not among the sources. A
    structured error names a location (the syntactic context), may carry a
    message, and may have children. *)
Inductive ErrorTree : Type :=
| mkErrorTree (location : string) (message : option string) (children : list ErrorTree).

(** Modelled from the spec: the [Error] type of [errorTree.ts]. A rule
    returns either a single error tree or, for [Rec], the array of error
    trees that [mergeInMany] hands back. *)
Inductive Error : Type :=
| OneError (e : ErrorTree)
| ManyErrors (es : list ErrorTree).

(** Modelled from the spec: [buildErrorLeaf] of [errorTree.ts] builds a
    structured error leaf from a context string and a message string. *)
Definition buildErrorLeaf (location message : string) : ErrorTree :=
  mkErrorTree location (Some message) [].

Definition TypedArg : Type := QuintEx * QuintType.
Definition Result : Type := Completion (Either Error (list Constraint)).

(** ** The constraint generator *)

Section SpecialConstraints.

(** [IRprinting.ts] is not among the sources: the printer of expressions
    is a parameter of the development. *)
Variable expressionToString : QuintEx → string.

(** An array of strings inside a template literal: the elements joined
    by commas. *)
Definition join (xs : list string) : string := String.concat "," xs.

(** [`Generating record constraints for ${args.map(a => expressionToString(a[0]))}`] *)
Definition errorLocation (args : list TypedArg) : string :=
  "Generating record constraints for " +:+ join (expressionToString ∘ fst <$> args).

Definition recordKeyMessage (key : QuintEx) : string :=
  "Record field name must be a name expression but is " +:+ kind key +:+ ": "
    +:+ expressionToString key.

Definition fieldNameMessage (fieldName : QuintEx) : string :=
  "Record field name must be a string expression but is " +:+ kind fieldName +:+ ": "
    +:+ expressionToString fieldName.

Definition itemNameMessage (itemName : QuintEx) : string :=
  "Tup field index must be an int expression but is " +:+ kind itemName +:+ ": "
    +:+ expressionToString itemName.

(** The callback mapped over the chunks in [recordConstructorConstraints];
    its parameter pattern is [[[key, _keyType], [_value, valueType]]]. *)
Definition recordField (args : list TypedArg) (pair : list TypedArg)
    : Completion (Either ErrorTree (RowField QuintType)) :=
  '(key, _keyType) ← element pair 0;
  '(_value, valueType) ← element pair 1;
  mret (match key with
        | QuintStr _ value => right (mkField value valueType)
        | _ => left (buildErrorLeaf (errorLocation args) (recordKeyMessage key))
        end).

Definition recordConstructorConstraints
    (id : Z) (args : list TypedArg) (resultTypeVar : QuintVarType) : Result :=
  let constraints : list Constraint := [] in
  (* the last chunk of an odd-length list lacks its second element *)
  fields ← mapM (recordField args) (chunk args 2);
  mret (Either.map
          (λ fs,
             let t := TRec (RowFields fs RowEmpty) in
             let c := CEq (t, varType resultTypeVar) id in
             (* constraints.push(c) on the empty array *)
             constraints ++ [c])
          (Either.mapLeft ManyErrors (mergeInMany fields))).

Definition fieldConstraints
    (id : Z) (args : list TypedArg) (resultTypeVar : QuintVarType) : Result :=
  '(_rec, recType) ← element args 0;
  '(fieldName, _fieldNameType) ← element args 1;
  mret (match fieldName with
        | QuintStr _ value =>
            let generalRecType :=
              TRec (RowFields [mkField value (varType resultTypeVar)]
                              (RowVar ("tail_" +:+ name resultTypeVar))) in
            let constraint := CEq (recType, generalRecType) id in
            right [constraint]
        | _ =>
            left (OneError (buildErrorLeaf (errorLocation args) (fieldNameMessage fieldName)))
        end).

Definition fieldNamesConstraints
    (id : Z) (args : list TypedArg) (resultTypeVar : QuintVarType) : Result :=
  '(_rec, recType) ← element args 0;
  let generalRecType := TRec (RowVar ("rec_" +:+ name resultTypeVar)) in
  let c1 := CEq (varType resultTypeVar, TSet TStr) id in
  let c2 := CEq (recType, generalRecType) id in
  mret (right [c1; c2]).

Definition withConstraints
    (id : Z) (args : list TypedArg) (resultTypeVar : QuintVarType) : Result :=
  '(_rec, recType) ← element args 0;
  '(fieldName, _fieldNameType) ← element args 1;
  '(_value, valueType) ← element args 2;
  mret (match fieldName with
        | QuintStr _ value =>
            let generalRecType :=
              TRec (RowFields [mkField value valueType]
                              (RowVar ("tail_" +:+ name resultTypeVar))) in
            let c1 := CEq (recType, generalRecType) id in
            let c2 := CEq (varType resultTypeVar, generalRecType) id in
            right [c1; c2]
        | _ =>
            left (OneError (buildErrorLeaf (errorLocation args) (fieldNameMessage fieldName)))
        end).

Definition tupleConstructorConstraints
    (id : Z) (args : list TypedArg) (resultTypeVar : QuintVarType) : Result :=
  let fields := imap (λ i '(_, type), mkField (pretty i) type) args in
  let t2 := TTup (RowFields fields RowEmpty) in
  let c := CEq (t2, varType resultTypeVar) id in
  mret (right [c]).

Definition itemConstraints
    (id : Z) (args : list TypedArg) (resultTypeVar : QuintVarType) : Result :=
  '(_tup, tupType) ← element args 0;
  '(itemName, _itemNameType) ← element args 1;
  match itemName with
  | QuintInt _ value =>
      let fields :=
        (λ i, mkField (pretty i)
                      (TVar ("tup_" +:+ name resultTypeVar +:+ "_" +:+ pretty i)))
          <$> times (Number (value - 1)) in
      fields ← push fields (mkField (pretty (value - 1)) (varType resultTypeVar));
      let generalTupType :=
        TTup (RowFields fields (RowVar ("tail_" +:+ name resultTypeVar))) in
      let constraint := CEq (tupType, generalTupType) id in
      mret (right [constraint])
  | _ =>
      mret (left (OneError (buildErrorLeaf (errorLocation args) (itemNameMessage itemName))))
  end.

Definition specialConstraints
    (opcode : string) (id : Z) (args : list TypedArg) (resultTypeVar : QuintVarType)
    : Result :=
  if String.eqb opcode "Rec" then recordConstructorConstraints id args resultTypeVar
  else if String.eqb opcode "field" then fieldConstraints id args resultTypeVar
  else if String.eqb opcode "fieldNames" then fieldNamesConstraints id args resultTypeVar
  else if String.eqb opcode "with" then withConstraints id args resultTypeVar
  else if String.eqb opcode "Tup" then tupleConstructorConstraints id args resultTypeVar
  else if String.eqb opcode "item" then itemConstraints id args resultTypeVar
  else mret (right []).

End SpecialConstraints.

(** ** The validation of the keys of [Rec], pair by pair *)

(** The validation error [Rec] builds for a key that is not a literal. *)
Definition keyError (expressionToString : QuintEx → string)
    (args : list TypedArg) (key : QuintEx) : ErrorTree :=
  buildErrorLeaf (errorLocation expressionToString args)
                 (recordKeyMessage expressionToString key).

(** The outcome of validating each [key, value] pair of [rest], for a call
    whose full argument list is [args]. *)
Fixpoint keyChecks (expressionToString : QuintEx → string)
    (args rest : list TypedArg) : list (Either ErrorTree (RowField QuintType)) :=
  match rest with
  | (key, _) :: (_, valueType) :: rest' =>
      match key with
      | QuintStr _ value => right (mkField value valueType)
      | _ => left (keyError expressionToString args key)
      end :: keyChecks expressionToString args rest'
  | _ => []
  end.

(** ** What the specification says, in its own words *)

(** The key expressions of a flattened [key, value, key, value, ...]
    argument list: those at the even positions. *)
Fixpoint keys (args : list TypedArg) : list QuintEx :=
  match args with
  | (key, _) :: _ :: rest => key :: keys rest
  | [(key, _)] => [key]
  | [] => []
  end.

(** The record fields the specification gives for [Rec]: for each pair, the
    value of the key literal and the type of the value expression. *)
Fixpoint literalFields (args : list TypedArg) : list (RowField QuintType) :=
  match args with
  | (QuintStr _ value, _) :: (_, valueType) :: rest =>
      mkField value valueType :: literalFields rest
  | _ => []
  end.

(** The open tuple row the specification gives for [item] at the 1-based
    position [N]: placeholders at positions [0 .. N-2], the result variable
    at position [N-1], and the tail variable. *)
Definition placeholder (resultTypeVar : QuintVarType) (i : Z) : RowField QuintType :=
  mkField (pretty i) (TVar ("tup_" +:+ name resultTypeVar +:+ "_" +:+ pretty i)).

Definition itemRow (resultTypeVar : QuintVarType) (N : Z) : Row :=
  RowFields
    ((placeholder resultTypeVar <$> seqZ 0 (N - 1))
       ++ [mkField (pretty (N - 1)) (varType resultTypeVar)])
    (RowVar ("tail_" +:+ name resultTypeVar)).

(** The six operators with a rule of their own. *)
Definition specialOpcodes : list string :=
  ["Rec"; "field"; "fieldNames"; "with"; "Tup"; "item"].

(** The argument lists each rule can destructure, and for [item] the
    literal indices for which the array of fields can be built. *)
Definition wellFormedCall (opcode : string) (args : list TypedArg) : Prop :=
  if String.eqb opcode "Rec" then Nat.Even (length args)
  else if String.eqb opcode "field" then (2 ≤ length args)%nat
  else if String.eqb opcode "fieldNames" then (1 ≤ length args)%nat
  else if String.eqb opcode "with" then (3 ≤ length args)%nat
  else if String.eqb opcode "item" then
    (2 ≤ length args)%nat ∧
    ∀ id N T, args !! 1%nat = Some (QuintInt id N, T) →
              N - 1 < MAX_ARRAY_LENGTH ∨ MAX_SAFE_INTEGER < N - 1
  else True.

(** A printer used to instantiate the parameter in closed examples. *)
Definition samplePrinter (e : QuintEx) : string :=
  match e with
  | QuintName _ name => name
  | QuintBool _ value => if value then "true" else "false"
  | QuintInt _ value => pretty value
  | QuintStr _ value => value
  | QuintApp _ opcode _ => opcode
  | QuintLambda _ _ _ => "lambda"
  | QuintLet _ _ _ => "let"
  end.

(** ** Printing of constraints *)

Section Printing.

(** [IRprinting.ts] is not among the sources: the printer of types is a
    parameter of the development. *)
Variable typeToString : QuintType → string.


End Printing.

(** ** Reading a result *)

(** The error trees an [Error] holds. *)
Definition errorTrees (error : Error) : list ErrorTree :=
  match error with
  | OneError e => [e]
  | ManyErrors es => es
  end.

(** The names of the fields a row lists, rest of the row included. *)
Fixpoint rowFieldNames (row : Row) : list string :=
  match row with
  | RowFields fields other => (fieldName <$> fields) ++ rowFieldNames other
  | RowVar _ | RowEmpty => []
  end.

(** The variables a row mentions directly: those that stand as the type of
    a field, in order, then the variable the row ends with. *)
Definition fieldVariable (field : RowField QuintType) : option string :=
  match fieldType field with
  | TVar name => Some name
  | _ => None
  end.

Fixpoint rowVariables (row : Row) : list string :=
  match row with
  | RowFields fields other => omap fieldVariable fields ++ rowVariables other
  | RowVar name => [name]
  | RowEmpty => []
  end.

(** The name [item] gives the placeholder variable of position [i]. *)
Definition placeholderName (X : QuintVarType) (i : Z) : string :=
  "tup_" +:+ name X +:+ "_" +:+ pretty i.

(** ** Library facts *)

Section Library.

Context {A B : Type}.

Lemma bind_Normal (f : A → Completion B) (a : A) : Normal a ≫= f = f a.
Proof. reflexivity. Qed.

Lemma push_ok (xs : list A) (x : A) :
  Z.of_nat (length xs) < MAX_ARRAY_LENGTH → push xs x = Normal (xs ++ [x]).
Proof. intros Hlt. unfold push. by rewrite bool_decide_eq_true_2. Qed.

Lemma push_full (xs : list A) (x : A) :
  MAX_ARRAY_LENGTH ≤ Z.of_nat (length xs) → push xs x = Throw RangeError.
Proof. intros Hle. unfold push. rewrite bool_decide_eq_false_2; [done | lia]. Qed.

(** More fuel than elements changes nothing. *)
Lemma chunk_go_fuel (size : nat) (xs : list A) (fuel : nat) :
  (0 < size)%nat → (length xs ≤ fuel)%nat →
  chunk_go fuel size xs = chunk_go (length xs) size xs.
Proof.
  intros Hsize. revert xs.
  induction (lt_wf fuel) as [fuel _ IH]. intros xs Hlen.
  destruct xs as [|x xs]; [by destruct fuel|].
  destruct fuel as [|fuel]; [simpl in Hlen; lia|].
  change (length (x :: xs)) with (S (length xs)). cbn [chunk_go].
  f_equal.
  assert (length (drop size (x :: xs)) ≤ length xs)%nat as Hdrop.
  { rewrite length_drop. simpl. lia. }
  simpl in Hlen.
  rewrite (IH fuel); [| lia | lia].
  rewrite (IH (length xs)); [done | lia | lia].
Qed.

Lemma chunk_singleton (x : A) : chunk [x] 2 = [[x]].
Proof. reflexivity. Qed.

Lemma chunk_pair (x y : A) (xs : list A) :
  chunk (x :: y :: xs) 2 = [x; y] :: chunk xs 2.
Proof.
  change (chunk (x :: y :: xs) 2)
    with ([x; y] :: chunk_go (S (length xs)) 2 xs).
  f_equal. apply chunk_go_fuel; lia.
Qed.

(** [mergeInMany] returns all the [Left] values when there is one, and all
    the [Right] values otherwise. *)
Lemma mergeInMany_from_Left (ls : list A) (es : list (Either A B)) :
  foldl mergeInMany_step (Left ls) es = Left (ls ++ lefts es).
Proof.
  revert ls. induction es as [|[l|r] es IH]; intros ls; simpl.
  - by rewrite app_nil_r.
  - rewrite IH. by rewrite <-app_assoc.
  - apply IH.
Qed.

Lemma mergeInMany_from_Right (rs : list B) (es : list (Either A B)) :
  foldl mergeInMany_step (Right rs) es =
    match lefts es with
    | [] => Right (rs ++ rights es)
    | ls => Left ls
    end.
Proof.
  revert rs. induction es as [|[l|r] es IH]; intros rs; simpl.
  - by rewrite app_nil_r.
  - by rewrite mergeInMany_from_Left.
  - rewrite IH. destruct (lefts es); [|done]. by rewrite <-app_assoc.
Qed.

Lemma lefts_cons (e : Either A B) (es : list (Either A B)) :
  lefts (e :: es) = match e with Left l => l :: lefts es | Right _ => lefts es end.
Proof. by destruct e. Qed.

Lemma rights_cons (e : Either A B) (es : list (Either A B)) :
  rights (e :: es) = match e with Left _ => rights es | Right r => r :: rights es end.
Proof. by destruct e. Qed.

(** The first element that satisfies a decidable predicate. *)
Lemma Exists_first (P : A → Prop) `{!∀ x, Decision (P x)} (xs : list A) :
  Exists P xs → ∃ before x after,
    xs = before ++ x :: after ∧ Forall (λ y, ¬ P y) before ∧ P x.
Proof.
  induction xs as [|y xs IH]; intros Hex; [by apply Exists_nil in Hex|].
  destruct (decide (P y)) as [Hy|Hy].
  - by exists [], y, xs.
  - apply Exists_cons in Hex as [?|Hex]; [done|].
    destruct (IH Hex) as (before & x & after & -> & Hbefore & Hx).
    exists (y :: before), x, after. by repeat constructor.
Qed.

Lemma filter_none (P : A → Prop) `{!∀ x, Decision (P x)} (xs : list A) :
  Forall (λ y, ¬ P y) xs → filter P xs = [].
Proof.
  induction 1 as [|y xs Hy _ IH]; [done|].
  by rewrite filter_cons_False.
Qed.

Lemma mergeInMany_spec (es : list (Either A B)) :
  mergeInMany es =
    match lefts es with
    | [] => Right (rights es)
    | ls => Left ls
    end.
Proof. apply mergeInMany_from_Right. Qed.

End Library.

(** [Number] is exact on the safe integers, keeps the sign, and maps what
    lies above the safe integers above them. *)
Section NumberFacts.

Lemma round53_exact (m : Z) : 0 ≤ m < 2 ^ 53 → round53 m = m.
Proof.
  intros [Hnonneg Hlt]. unfold round53.
  rewrite bool_decide_eq_true_2; [done|].
  destruct (decide (m = 0)) as [->|Hne]; [done|].
  assert (Z.log2 m < 53) by (apply Z.log2_lt_pow2; lia). lia.
Qed.

Lemma round53_nonneg (m : Z) : 0 ≤ m → 0 ≤ round53 m.
Proof.
  intros Hnonneg. unfold round53. case_bool_decide as Hk; [done|].
  assert (0 < 2 ^ (Z.log2 m - 52)) by (apply Z.pow_pos_nonneg; lia).
  assert (0 ≤ m `div` 2 ^ (Z.log2 m - 52)) by (apply Z.div_pos; lia).
  repeat case_bool_decide; try destruct (Z.even _); nia.
Qed.

Lemma round53_above (m : Z) : 2 ^ 53 ≤ m → 2 ^ 53 ≤ round53 m.
Proof.
  intros Hle. unfold round53.
  assert (53 ≤ Z.log2 m) by (apply Z.log2_le_pow2; lia).
  rewrite bool_decide_eq_false_2 by lia.
  set (k := Z.log2 m - 52).
  assert (2 ^ 1 ≤ 2 ^ k) as Hk by (apply Z.pow_le_mono_r; lia).
  assert (2 ^ 52 * 2 ^ k ≤ m) as Hm.
  { rewrite <-Z.pow_add_r by lia.
    replace (52 + k) with (Z.log2 m) by lia.
    apply Z.log2_spec. lia. }
  assert (2 ^ 52 ≤ m `div` 2 ^ k) as Hq.
  { apply Z.div_le_lower_bound; lia. }
  change (2 ^ 53) with (2 ^ 52 * 2 ^ 1).
  repeat case_bool_decide; try destruct (Z.even _); nia.
Qed.

Lemma toInteger_Number_safe (v : Z) :
  Z.abs v ≤ MAX_SAFE_INTEGER → toInteger (Number v) = v.
Proof.
  unfold MAX_SAFE_INTEGER. intros Hv. unfold Number.
  rewrite round53_exact by lia.
  rewrite bool_decide_eq_false_2 by lia.
  simpl. lia.
Qed.

Lemma toInteger_Number_nonpos (v : Z) : v ≤ 0 → toInteger (Number v) ≤ 0.
Proof.
  intros Hv. unfold Number.
  pose proof (round53_nonneg (Z.abs v) (Z.abs_nonneg v)).
  case_bool_decide; simpl.
  - destruct (decide (v = 0)) as [->|]; [done|].
    rewrite bool_decide_eq_true_2 by lia. done.
  - nia.
Qed.

Lemma toInteger_Number_above (v : Z) :
  MAX_SAFE_INTEGER < v → MAX_SAFE_INTEGER < toInteger (Number v).
Proof.
  unfold MAX_SAFE_INTEGER. intros Hv. unfold Number.
  pose proof (round53_above (Z.abs v)) as Habove.
  case_bool_decide; simpl.
  - rewrite bool_decide_eq_false_2 by lia. done.
  - rewrite Z.sgn_pos by lia. lia.
Qed.

(** The indices [times] yields for a converted BigInt. *)
Lemma times_Number (v : Z) :
  times (Number v) =
    if bool_decide (1 ≤ v ≤ MAX_SAFE_INTEGER)
    then seqZ 0 (Z.min v MAX_ARRAY_LENGTH)
    else [].
Proof.
  unfold times. cbv zeta.
  destruct (decide (1 ≤ v ≤ MAX_SAFE_INTEGER)) as [Hv|Hv].
  - rewrite (bool_decide_eq_true_2 _ Hv).
    rewrite toInteger_Number_safe by lia.
    by rewrite bool_decide_eq_false_2 by lia.
  - rewrite (bool_decide_eq_false_2 _ Hv).
    rewrite bool_decide_eq_true_2; [done|].
    destruct (decide (v ≤ 0)).
    + left. pose proof (toInteger_Number_nonpos v). lia.
    + right. apply toInteger_Number_above. lia.
Qed.

End NumberFacts.

(** ** The rules, one by one *)

Section Rules.

Variable expressionToString : QuintEx → string.

Lemma kind_str (e : QuintEx) : kind e = "str" ↔ ∃ id value, e = QuintStr id value.
Proof. split; [destruct e; try done; eauto | by intros (? & ? & ->)]. Qed.

Lemma kind_int (e : QuintEx) : kind e = "int" ↔ ∃ id value, e = QuintInt id value.
Proof. split; [destruct e; try done; eauto | by intros (? & ? & ->)]. Qed.

(** Lists taken two elements at a time. *)
Lemma list_pair_ind {A} (P : list A → Prop) :
  P [] → (∀ x, P [x]) → (∀ x y xs, P xs → P (x :: y :: xs)) → ∀ xs, P xs.
Proof.
  intros Hnil Hone Hstep xs.
  cut (P xs ∧ ∀ x, P (x :: xs)); [by intros [? _]|].
  induction xs as [|y xs [IH1 IH2]]; split; auto.
Qed.

Lemma recordField_pair (args : list TypedArg) (a b : TypedArg) :
  recordField expressionToString args [a; b] =
    Normal (match a.1 with
            | QuintStr _ value => right (mkField value b.2)
            | _ => left (keyError expressionToString args a.1)
            end).
Proof. destruct a as [key keyType], b as [value valueType]. reflexivity. Qed.

Lemma recordField_single (args : list TypedArg) (a : TypedArg) :
  recordField expressionToString args [a] = Throw TypeError.
Proof. by destruct a. Qed.

(** Validation visits every pair of an even-length list... *)
Lemma mapM_recordField_even (args rest : list TypedArg) :
  Nat.Even (length rest) →
  mapM (recordField expressionToString args) (chunk rest 2)
    = Normal (keyChecks expressionToString args rest).
Proof.
  induction rest as [|a|a b rest IH] using list_pair_ind; intros Heven.
  - reflexivity.
  - destruct Heven as [n Hn]. simpl in Hn. lia.
  - rewrite chunk_pair. cbn [mapM]. rewrite recordField_pair.
    rewrite bind_Normal, IH.
    + destruct a as [key keyType], b as [value valueType].
      by destruct key.
    + destruct Heven as [n Hn]. exists (n - 1)%nat. simpl in Hn. lia.
Qed.

(** ... and trips over the incomplete last pair of an odd-length one. *)
Lemma mapM_recordField_odd (args rest : list TypedArg) :
  Nat.Odd (length rest) →
  mapM (recordField expressionToString args) (chunk rest 2) = Throw TypeError.
Proof.
  induction rest as [|a|a b rest IH] using list_pair_ind; intros Hodd.
  - destruct Hodd as [n Hn]. simpl in Hn. lia.
  - rewrite chunk_singleton. cbn [mapM]. by rewrite recordField_single.
  - rewrite chunk_pair. cbn [mapM]. rewrite recordField_pair.
    rewrite bind_Normal, IH; [done|].
    destruct Hodd as [n Hn]. exists (n - 1)%nat. simpl in Hn. lia.
Qed.

Lemma lefts_keyChecks (args rest : list TypedArg) :
  Nat.Even (length rest) →
  lefts (keyChecks expressionToString args rest)
    = keyError expressionToString args <$> filter (λ key, kind key ≠ "str") (keys rest).
Proof.
  induction rest as [|a|a b rest IH] using list_pair_ind; intros Heven.
  - reflexivity.
  - destruct Heven as [n Hn]. simpl in Hn. lia.
  - assert (Nat.Even (length rest)) as Hrest.
    { destruct Heven as [n Hn]. exists (n - 1)%nat. simpl in Hn. lia. }
    destruct a as [key keyType], b as [value valueType].
    cbn [keyChecks keys]. rewrite lefts_cons, filter_cons, IH by done.
    destruct key; by case_decide.
Qed.

Lemma rights_keyChecks (args rest : list TypedArg) :
  Nat.Even (length rest) →
  Forall (λ key, kind key = "str") (keys rest) →
  rights (keyChecks expressionToString args rest) = literalFields rest.
Proof.
  induction rest as [|a|a b rest IH] using list_pair_ind; intros Heven Hkeys.
  - reflexivity.
  - destruct Heven as [n Hn]. simpl in Hn. lia.
  - assert (Nat.Even (length rest)) as Hrest.
    { destruct Heven as [n Hn]. exists (n - 1)%nat. simpl in Hn. lia. }
    destruct a as [key keyType], b as [value valueType].
    cbn [keys] in Hkeys. apply Forall_cons in Hkeys as [Hkey Hkeys].
    apply kind_str in Hkey as (kid & k & ->).
    cbn [keyChecks literalFields]. rewrite rights_cons. unfold right.
    by rewrite IH.
Qed.

Lemma length_literalFields (rest : list TypedArg) :
  Forall (λ key, kind key = "str") (keys rest) →
  length (literalFields rest) = Nat.div2 (length rest).
Proof.
  induction rest as [|a|a b rest IH] using list_pair_ind; intros Hkeys.
  - reflexivity.
  - destruct a as [key keyType].
    apply Forall_cons in Hkeys as [Hkey _].
    by apply kind_str in Hkey as (kid & k & ->).
  - destruct a as [key keyType], b as [value valueType].
    cbn [keys] in Hkeys. apply Forall_cons in Hkeys as [Hkey Hkeys].
    apply kind_str in Hkey as (kid & k & ->).
    cbn [literalFields length Nat.div2]. by rewrite IH.
Qed.

(** [Rec] on an even number of arguments: all validation errors when a
    key is not a literal, the closed record otherwise. *)
Lemma recordConstructorConstraints_even id (args : list TypedArg) X :
  Nat.Even (length args) →
  recordConstructorConstraints expressionToString id args X =
    Normal
      match lefts (keyChecks expressionToString args args) with
      | [] =>
          Right [CEq (TRec (RowFields (rights (keyChecks expressionToString args args))
                                      RowEmpty), varType X) id]
      | errors => Left (ManyErrors errors)
      end.
Proof.
  intros Heven. unfold recordConstructorConstraints.
  rewrite mapM_recordField_even by done. rewrite bind_Normal.
  rewrite mergeInMany_spec.
  by destruct (lefts (keyChecks expressionToString args args)).
Qed.

Lemma recordConstructorConstraints_odd id (args : list TypedArg) X :
  Nat.Odd (length args) →
  recordConstructorConstraints expressionToString id args X = Throw TypeError.
Proof.
  intros Hodd. unfold recordConstructorConstraints.
  by rewrite mapM_recordField_odd.
Qed.

(** [item] with an integer literal [N]: the placeholders [times] yields,
    then the result variable, unless the array of fields is full. *)
Lemma itemConstraints_int id a iid (N : Z) T (rest : list TypedArg) X :
  itemConstraints expressionToString id (a :: (QuintInt iid N, T) :: rest) X =
    if bool_decide (MAX_ARRAY_LENGTH ≤ N - 1 ≤ MAX_SAFE_INTEGER)
    then Throw RangeError
    else
      Normal (Right
        [CEq (a.2,
              TTup (RowFields
                      ((placeholder X
                          <$> (if bool_decide (1 ≤ N - 1 ≤ MAX_SAFE_INTEGER)
                               then seqZ 0 (N - 1) else []))
                         ++ [mkField (pretty (N - 1)) (varType X)])
                      (RowVar ("tail_" +:+ name X)))) id]).
Proof.
  destruct a as [tup tupType]. unfold itemConstraints.
  cbn [element lookup list_lookup]. rewrite !bind_Normal. cbn [snd].
  rewrite times_Number.
  fold (placeholder X).
  assert (1 ≤ MAX_ARRAY_LENGTH ≤ MAX_SAFE_INTEGER) as Hbounds by done.
  destruct (decide (1 ≤ N - 1 ≤ MAX_SAFE_INTEGER)) as [Hsafe|Hsafe].
  - rewrite !(bool_decide_eq_true_2 _ Hsafe).
    destruct (decide (MAX_ARRAY_LENGTH ≤ N - 1)) as [Hfull|Hfull].
    + rewrite bool_decide_eq_true_2 by lia.
      rewrite push_full; [done|].
      rewrite length_fmap, length_seqZ. lia.
    + rewrite bool_decide_eq_false_2 by lia.
      rewrite Z.min_l by lia.
      rewrite push_ok; [done|].
      rewrite length_fmap, length_seqZ. lia.
  - rewrite !(bool_decide_eq_false_2 _ Hsafe).
    rewrite bool_decide_eq_false_2 by lia.
    rewrite push_ok; [done|]. simpl. lia.
Qed.

(** Each rule returns once its argument pattern is matched, and throws
    when it is not. *)
Lemma fieldConstraints_returns id a b (rest : list TypedArg) X :
  returns (fieldConstraints expressionToString id (a :: b :: rest) X).
Proof. destruct a, b as [[] ?]; by eexists. Qed.

Lemma fieldConstraints_throws id (args : list TypedArg) X :
  (length args < 2)%nat →
  fieldConstraints expressionToString id args X = Throw TypeError.
Proof. destruct args as [|[] [|??]]; simpl; by try lia. Qed.

Lemma fieldNamesConstraints_returns id a (rest : list TypedArg) X :
  returns (fieldNamesConstraints id (a :: rest) X).
Proof. destruct a; by eexists. Qed.

Lemma fieldNamesConstraints_throws id X :
  fieldNamesConstraints id [] X = Throw TypeError.
Proof. reflexivity. Qed.

Lemma withConstraints_returns id a b c (rest : list TypedArg) X :
  returns (withConstraints expressionToString id (a :: b :: c :: rest) X).
Proof. destruct a, b as [[] ?], c; by eexists. Qed.

Lemma withConstraints_throws id (args : list TypedArg) X :
  (length args < 3)%nat →
  withConstraints expressionToString id args X = Throw TypeError.
Proof. destruct args as [|[] [|[] [|??]]]; simpl; by try lia. Qed.

Lemma itemConstraints_not_int_returns id a e T (rest : list TypedArg) X :
  kind e ≠ "int" →
  returns (itemConstraints expressionToString id (a :: (e, T) :: rest) X).
Proof. intros Hkind. destruct a, e; try done; by eexists. Qed.

Lemma itemConstraints_throws id (args : list TypedArg) X :
  (length args < 2)%nat →
  itemConstraints expressionToString id args X = Throw TypeError.
Proof. destruct args as [|[] [|??]]; simpl; by try lia. Qed.

End Rules.

(** ** Properties of the generated constraints *)

Section Claims.

Variable expressionToString : QuintEx → string.

(** C1. [with] applied to a record, a string literal [f] and a value of
    type [valueType] succeeds with exactly two constraints, in this
    order: the record's type equals [R], and the result variable equals
    [R], where [R] is one open record row with the single field
    [(f, valueType)] and the tail variable ["tail_" + X.name]; both
    constraints hold the very same term, hence the same tail variable. *)
Theorem with_shares_open_record
    id rec recType fid f fT value valueType (X : QuintVarType) :
  let R := TRec (RowFields [mkField f valueType] (RowVar ("tail_" +:+ name X))) in
  specialConstraints expressionToString "with" id
      [(rec, recType); (QuintStr fid f, fT); (value, valueType)] X
    = Normal (Right [CEq (recType, R) id; CEq (varType X, R) id]).
Proof. reflexivity. Qed.

(** C5. [field] applied to a record and a string literal [f] succeeds
    with the one constraint that the record's type equals the open record
    row with the single field [(f, X)] and tail variable
    ["tail_" + X.name]; when the second argument is not a string literal
    the call fails with an error leaf whose message names that
    expression. *)
Theorem field_constraints id rec recType (X : QuintVarType) :
  (∀ fid f fT,
     specialConstraints expressionToString "field" id
         [(rec, recType); (QuintStr fid f, fT)] X
       = Normal (Right
           [CEq (recType,
                 TRec (RowFields [mkField f (varType X)]
                                 (RowVar ("tail_" +:+ name X)))) id]))
  ∧
  (∀ e eT,
     kind e ≠ "str" →
     specialConstraints expressionToString "field" id [(rec, recType); (e, eT)] X
       = Normal (Left (OneError
           (buildErrorLeaf
              ("Generating record constraints for "
                 +:+ join [expressionToString rec; expressionToString e])
              ("Record field name must be a string expression but is "
                 +:+ kind e +:+ ": " +:+ expressionToString e))))).
Proof.
  split; [reflexivity|].
  intros e eT Hkind. by destruct e.
Qed.

(** C7. [fieldNames] applied to one record succeeds with exactly two
    constraints: the result variable equals the set of strings, and the
    record's type equals a record whose row is just the row variable
    ["rec_" + X.name], with no known field. *)
Theorem fieldNames_constraints id rec recType (X : QuintVarType) :
  specialConstraints expressionToString "fieldNames" id [(rec, recType)] X
    = Normal (Right
        [CEq (varType X, TSet TStr) id;
         CEq (recType, TRec (RowVar ("rec_" +:+ name X))) id]).
Proof. reflexivity. Qed.

(** C6. [Tup] applied to any argument list succeeds with the one
    constraint that a closed tuple row equals the result variable; the
    row has one field per argument, named ["0"], ["1"], ... in order and
    typed with the arguments' types in order. *)
Theorem tuple_constructor_constraints id (args : list TypedArg) (X : QuintVarType) :
  ∃ fields,
    specialConstraints expressionToString "Tup" id args X
      = Normal (Right [CEq (TTup (RowFields fields RowEmpty), varType X) id])
    ∧ fieldName <$> fields = pretty <$> seq 0 (length args)
    ∧ fieldType <$> fields = snd <$> args.
Proof.
  eexists. split; [reflexivity|].
  rewrite <-(imap_seq_0 args (λ i : nat, @pretty nat _ i)).
  rewrite !fmap_imap.
  split; [|rewrite <-(imap_const snd args)]; apply imap_ext; by intros i [e T] _.
Qed.

(** C8. For an opcode that is none of the six special ones the call
    succeeds with no constraint, whatever the arguments and the result
    variable. *)
Theorem other_opcodes_no_constraints
    (opcode : string) id (args : list TypedArg) (X : QuintVarType) :
  opcode ∉ specialOpcodes →
  specialConstraints expressionToString opcode id args X = Normal (Right []).
Proof.
  unfold specialOpcodes. rewrite !not_elem_of_cons.
  intros (? & ? & ? & ? & ? & ? & _). unfold specialConstraints.
  by repeat (rewrite (proj2 (String.eqb_neq _ _)) by done).
Qed.

(** C3. [Rec] applied to an even number of arguments whose keys (the
    arguments at even positions) are all string literals succeeds with the
    one constraint that a closed record row equals the result variable; the
    row's fields are, pair by pair and in order, the key literal's value
    with the type of the value argument, one field for every pair. Nothing
    is asked of the keys beyond being literals, so equal keys go through. *)
Theorem record_constructor_constraints id (args : list TypedArg) (X : QuintVarType) :
  Nat.Even (length args) →
  Forall (λ key, kind key = "str") (keys args) →
  specialConstraints expressionToString "Rec" id args X
    = Normal (Right [CEq (TRec (RowFields (literalFields args) RowEmpty), varType X) id])
  ∧ length (literalFields args) = Nat.div2 (length args).
Proof.
  intros Heven Hkeys. split; [|by apply length_literalFields].
  change (specialConstraints expressionToString "Rec" id args X)
    with (recordConstructorConstraints expressionToString id args X).
  rewrite recordConstructorConstraints_even by done.
  rewrite lefts_keyChecks, rights_keyChecks by done.
  rewrite filter_none; [done|].
  eapply Forall_impl; [exact Hkeys|]. by intros key -> ?.
Qed.

(** C4, amended. [Rec] applied to an even number of arguments of which
    some key is not a string literal fails, returning no constraint. The
    error returned is the array of the validation errors of all the keys
    that are not literals, in argument order: it starts with the error of
    the first such key, and the errors of the later ones follow. Each
    error names its key expression and the full argument list. *)
Theorem record_constructor_key_errors id (args : list TypedArg) (X : QuintVarType) :
  Nat.Even (length args) →
  Exists (λ key, kind key ≠ "str") (keys args) →
  ∃ literals first later,
    keys args = literals ++ first :: later
    ∧ Forall (λ key, kind key = "str") literals
    ∧ kind first ≠ "str"
    ∧ specialConstraints expressionToString "Rec" id args X
        = Normal (Left (ManyErrors
            (keyError expressionToString args first
               :: (keyError expressionToString args
                     <$> filter (λ key, kind key ≠ "str") later)))).
Proof.
  intros Heven Hex.
  apply Exists_first in Hex as (literals & first & later & Hkeys & Hlits & Hfirst);
    [|apply _].
  exists literals, first, later. split_and!; [done| |done|].
  { eapply Forall_impl; [exact Hlits|]. intros key Hkey. by apply dec_stable. }
  change (specialConstraints expressionToString "Rec" id args X)
    with (recordConstructorConstraints expressionToString id args X).
  rewrite recordConstructorConstraints_even by done.
  rewrite lefts_keyChecks by done.
  rewrite Hkeys, filter_app, filter_none, filter_cons_True by done.
  reflexivity.
Qed.

(** C2, amended. [item] applied to a tuple and an index expression: when
    the index is not an integer literal the call fails with an error leaf;
    when it is an integer literal [N] with [1 ≤ N ≤ 4294967295] the call
    succeeds with the one constraint that the tuple's type equals the open
    tuple row whose fields are, in order, the positions ["0"] to ["N-2"]
    typed with the variables ["tup_" + X.name + "_" + i], then position
    ["N-1"] typed with the result variable, and whose tail is the variable
    ["tail_" + X.name]. *)
Theorem item_constraints id tup tupType (X : QuintVarType) :
  (∀ e eT,
     kind e ≠ "int" →
     specialConstraints expressionToString "item" id [(tup, tupType); (e, eT)] X
       = Normal (Left (OneError
           (buildErrorLeaf
              ("Generating record constraints for "
                 +:+ join [expressionToString tup; expressionToString e])
              ("Tup field index must be an int expression but is "
                 +:+ kind e +:+ ": " +:+ expressionToString e)))))
  ∧
  (∀ iid N T,
     1 ≤ N ≤ MAX_ARRAY_LENGTH →
     specialConstraints expressionToString "item" id [(tup, tupType); (QuintInt iid N, T)] X
       = Normal (Right [CEq (tupType, TTup (itemRow X N)) id])).
Proof.
  split.
  - intros e eT Hkind. by destruct e.
  - intros iid N T [Hlo Hhi].
    change (specialConstraints expressionToString "item" id [(tup, tupType); (QuintInt iid N, T)] X)
      with (itemConstraints expressionToString id [(tup, tupType); (QuintInt iid N, T)] X).
    assert (MAX_ARRAY_LENGTH ≤ MAX_SAFE_INTEGER) by done.
    rewrite itemConstraints_int, bool_decide_eq_false_2 by lia.
    unfold itemRow. case_bool_decide; [done|].
    by replace (N - 1) with 0 by lia.
Qed.

(** C10. [item] applied to a tuple and an integer literal [N ≤ 0] does not
    fail: it succeeds with the one constraint that the tuple's type equals
    an open tuple row with no placeholder and a single field, named by the
    decimal form of [N - 1] and typed with the result variable, with tail
    variable ["tail_" + X.name]. *)
Theorem item_nonpositive_index id tup tupType iid (N : Z) T (X : QuintVarType) :
  N ≤ 0 →
  specialConstraints expressionToString "item" id [(tup, tupType); (QuintInt iid N, T)] X
    = Normal (Right
        [CEq (tupType,
              TTup (RowFields [mkField (pretty (N - 1)) (varType X)]
                              (RowVar ("tail_" +:+ name X)))) id]).
Proof.
  intros HN.
  change (specialConstraints expressionToString "item" id [(tup, tupType); (QuintInt iid N, T)] X)
    with (itemConstraints expressionToString id [(tup, tupType); (QuintInt iid N, T)] X).
  assert (0 ≤ MAX_ARRAY_LENGTH) by done.
  by rewrite itemConstraints_int, !bool_decide_eq_false_2 by lia.
Qed.

(** C9, amended. A call returns a value, an error or a list of
    constraints, whenever its argument list can be destructured by the rule
    of its opcode: an even number of arguments for [Rec], at least two for
    [field] and [item], at least one for [fieldNames], at least three for
    [with], any number for [Tup] and for every other opcode; and, for
    [item] with an integer literal [N], whenever [N - 1 < 4294967295] or
    [N - 1 > 9007199254740991]. *)
Theorem well_formed_calls_return
    (opcode : string) id (args : list TypedArg) (X : QuintVarType) :
  wellFormedCall opcode args →
  returns (specialConstraints expressionToString opcode id args X).
Proof.
  unfold wellFormedCall, specialConstraints.
  destruct (String.eqb opcode "Rec").
  { intros Heven. rewrite recordConstructorConstraints_even by done. by eexists. }
  destruct (String.eqb opcode "field").
  { intros Hlen. destruct args as [|a [|b rest]]; simpl in Hlen; try lia.
    apply fieldConstraints_returns. }
  destruct (String.eqb opcode "fieldNames").
  { intros Hlen. destruct args as [|a rest]; simpl in Hlen; try lia.
    apply fieldNamesConstraints_returns. }
  destruct (String.eqb opcode "with").
  { intros Hlen. destruct args as [|a [|b [|c rest]]]; simpl in Hlen; try lia.
    apply withConstraints_returns. }
  destruct (String.eqb opcode "Tup"); [by eexists|].
  destruct (String.eqb opcode "item"); [|by eexists].
  intros [Hlen Hindex].
  destruct args as [|a [|[e T] rest]]; simpl in Hlen; try lia.
  destruct (decide (kind e = "int")) as [Hint|Hint];
    [|by apply itemConstraints_not_int_returns].
  apply kind_int in Hint as (iid & N & ->).
  rewrite itemConstraints_int, bool_decide_eq_false_2; [by eexists|].
  specialize (Hindex iid N T eq_refl). lia.
Qed.

(** X5. Outside these cases the call throws. *)
Lemma ill_formed_calls_throw
    (opcode : string) id (args : list TypedArg) (X : QuintVarType) :
  ¬ wellFormedCall opcode args →
  throws (specialConstraints expressionToString opcode id args X).
Proof.
  unfold wellFormedCall, specialConstraints.
  destruct (String.eqb opcode "Rec").
  { intros Hodd. destruct (Nat.Even_or_Odd (length args)); [done|].
    rewrite recordConstructorConstraints_odd by done. by eexists. }
  destruct (String.eqb opcode "field").
  { intros Hlen. rewrite fieldConstraints_throws by lia. by eexists. }
  destruct (String.eqb opcode "fieldNames").
  { intros Hlen. destruct args; [|simpl in Hlen; lia].
    rewrite fieldNamesConstraints_throws. by eexists. }
  destruct (String.eqb opcode "with").
  { intros Hlen. rewrite withConstraints_throws by lia. by eexists. }
  destruct (String.eqb_spec opcode "Tup") as [->|_];
    [by intros Hill; destruct Hill|].
  destruct (String.eqb opcode "item"); [|by intros Hill; destruct Hill].
  intros Hill.
  destruct (decide (length args < 2)%nat) as [Hlen|Hlen].
  { rewrite itemConstraints_throws by done. by eexists. }
  destruct args as [|a [|[e T] rest]]; simpl in Hlen; try lia.
  destruct (decide (kind e = "int")) as [Hint|Hint].
  - apply kind_int in Hint as (iid & N & ->).
    rewrite itemConstraints_int. case_bool_decide as Hfull; [by eexists|].
    destruct Hill. split; [simpl; lia|].
    intros iid' N' T' [= _ <- _]. lia.
  - destruct Hill. split; [simpl; lia|].
    intros iid N' T' [= -> _]. by destruct Hint.
Qed.

End Claims.

(** ** Closed instances *)

(** [with(r, "x", v)] with [v : int]: the two constraints mention
    [{ x: int | tail_X }]. *)
Example with_example :
  specialConstraints samplePrinter "with" 7
      [(QuintName 1 "r", TVar "r"); (QuintStr 2 "x", TStr); (QuintInt 3 5, TInt)]
      (mkVar "X")
    = Normal (Right
        [CEq (TVar "r", TRec (RowFields [mkField "x" TInt] (RowVar "tail_X"))) 7;
         CEq (TVar "X", TRec (RowFields [mkField "x" TInt] (RowVar "tail_X"))) 7]).
Proof. reflexivity. Qed.

(** [Rec] with the same key twice: both fields are kept. *)
Example record_duplicate_keys :
  specialConstraints samplePrinter "Rec" 7
      [(QuintStr 1 "a", TStr); (QuintInt 2 1, TInt);
       (QuintStr 3 "a", TStr); (QuintBool 4 true, TBool)]
      (mkVar "X")
    = Normal (Right
        [CEq (TRec (RowFields [mkField "a" TInt; mkField "a" TBool] RowEmpty),
              TVar "X") 7]).
Proof. reflexivity. Qed.

(** [field(r, f)] where [f] is a name, not a literal. *)
Lemma field_constraints_witness :
  kind (QuintName 2 "f") ≠ "str"
  ∧ specialConstraints samplePrinter "field" 7
        [(QuintName 1 "r", TVar "r"); (QuintName 2 "f", TStr)] (mkVar "X")
      = Normal (Left (OneError
          (buildErrorLeaf
             "Generating record constraints for r,f"
             "Record field name must be a string expression but is name: f"))).
Proof.
  split; [done|].
  by apply (proj2 (field_constraints samplePrinter 7
                     (QuintName 1 "r") (TVar "r") (mkVar "X"))).
Defined.

(** [Rec("name", "Alice", "age", 30)]. *)
Lemma record_constructor_constraints_witness :
  let args := [(QuintStr 1 "name", TStr); (QuintStr 2 "Alice", TStr);
               (QuintStr 3 "age", TStr); (QuintInt 4 30, TInt)] in
  (Nat.Even (length args) ∧ Forall (λ key, kind key = "str") (keys args))
  ∧ specialConstraints samplePrinter "Rec" 7 args (mkVar "X")
      = Normal (Right
          [CEq (TRec (RowFields [mkField "name" TStr; mkField "age" TInt] RowEmpty),
                TVar "X") 7]).
Proof.
  assert (Nat.Even 4) as Heven by (by exists 2%nat).
  split; [split; [done | by repeat constructor]|].
  apply (record_constructor_constraints samplePrinter 7
           [(QuintStr 1 "name", TStr); (QuintStr 2 "Alice", TStr);
            (QuintStr 3 "age", TStr); (QuintInt 4 30, TInt)] (mkVar "X")).
  - exact Heven.
  - by repeat constructor.
Defined.

(** [Rec(a, 1, b, 2)] where [a] and [b] are names: both are reported. *)
Lemma record_constructor_key_errors_witness :
  let args := [(QuintName 1 "a", TStr); (QuintInt 2 1, TInt);
               (QuintName 3 "b", TStr); (QuintInt 4 2, TInt)] in
  (Nat.Even (length args) ∧ Exists (λ key, kind key ≠ "str") (keys args))
  ∧ ∃ literals first later,
      keys args = literals ++ first :: later
      ∧ Forall (λ key, kind key = "str") literals
      ∧ kind first ≠ "str"
      ∧ specialConstraints samplePrinter "Rec" 7 args (mkVar "X")
          = Normal (Left (ManyErrors
              (keyError samplePrinter args first
                 :: (keyError samplePrinter args
                       <$> filter (λ key, kind key ≠ "str") later)))).
Proof.
  assert (Nat.Even 4) as Heven by (by exists 2%nat).
  split; [split; [done | by left]|].
  apply (record_constructor_key_errors samplePrinter 7
           [(QuintName 1 "a", TStr); (QuintInt 2 1, TInt);
            (QuintName 3 "b", TStr); (QuintInt 4 2, TInt)] (mkVar "X")).
  - exact Heven.
  - by left.
Defined.

(** C4 as stated fails: with two keys that are not literals the error is
    not a single validation error, it holds one error for each key. *)
Lemma record_constructor_two_errors :
  let args := [(QuintName 1 "a", TStr); (QuintInt 2 1, TInt);
               (QuintName 3 "b", TStr); (QuintInt 4 2, TInt)] in
  Nat.Even (length args)
  ∧ Exists (λ key, kind key ≠ "str") (keys args)
  ∧ specialConstraints samplePrinter "Rec" 7 args (mkVar "X")
      = Normal (Left (ManyErrors
          [buildErrorLeaf "Generating record constraints for a,1,b,2"
             "Record field name must be a name expression but is name: a";
           buildErrorLeaf "Generating record constraints for a,1,b,2"
             "Record field name must be a name expression but is name: b"]))
  ∧ ¬ ∃ e, specialConstraints samplePrinter "Rec" 7 args (mkVar "X")
             = Normal (Left (OneError e))
           ∨ specialConstraints samplePrinter "Rec" 7 args (mkVar "X")
             = Normal (Left (ManyErrors [e])).
Proof.
  split_and!; [by exists 2%nat | by left | reflexivity |].
  by intros [e [He|He]].
Qed.

(** [item(t, 3)]: two placeholders, then the result variable. *)
Lemma item_constraints_witness :
  (kind (QuintName 2 "i") ≠ "int" ∧ 1 ≤ 3 ≤ MAX_ARRAY_LENGTH)
  ∧ specialConstraints samplePrinter "item" 7
        [(QuintName 1 "t", TVar "t"); (QuintName 2 "i", TInt)] (mkVar "X")
      = Normal (Left (OneError
          (buildErrorLeaf
             "Generating record constraints for t,i"
             "Tup field index must be an int expression but is name: i")))
  ∧ specialConstraints samplePrinter "item" 7
        [(QuintName 1 "t", TVar "t"); (QuintInt 2 3, TInt)] (mkVar "X")
      = Normal (Right
          [CEq (TVar "t",
                TTup (RowFields
                        [mkField "0" (TVar "tup_X_0");
                         mkField "1" (TVar "tup_X_1");
                         mkField "2" (TVar "X")]
                        (RowVar "tail_X"))) 7]).
Proof.
  pose proof (item_constraints samplePrinter 7 (QuintName 1 "t") (TVar "t") (mkVar "X"))
    as [Hkind Hindex].
  split_and!; [done | done | done | by apply Hkind | by apply (Hindex 2 3 TInt)].
Defined.

(** C2 as stated fails: the index [2^53 + 1] is an integer literal not
    below [1], yet the row built has a single field and not the [2^53 + 1]
    fields of the stated row. *)
Lemma item_index_above_safe_integers :
  1 ≤ 9007199254740993
  ∧ specialConstraints samplePrinter "item" 7
        [(QuintName 1 "t", TVar "t"); (QuintInt 2 9007199254740993, TInt)] (mkVar "X")
      = Normal (Right
          [CEq (TVar "t",
                TTup (RowFields [mkField "9007199254740992" (TVar "X")]
                                (RowVar "tail_X"))) 7])
  ∧ specialConstraints samplePrinter "item" 7
        [(QuintName 1 "t", TVar "t"); (QuintInt 2 9007199254740993, TInt)] (mkVar "X")
      ≠ Normal (Right [CEq (TVar "t", TTup (itemRow (mkVar "X") 9007199254740993)) 7]).
Proof.
  assert (specialConstraints samplePrinter "item" 7
            [(QuintName 1 "t", TVar "t"); (QuintInt 2 9007199254740993, TInt)] (mkVar "X")
          = Normal (Right
              [CEq (TVar "t",
                    TTup (RowFields [mkField "9007199254740992" (TVar "X")]
                                    (RowVar "tail_X"))) 7])) as Hrun
    by (vm_compute; reflexivity).
  split_and!; [lia | exact Hrun |].
  rewrite Hrun. unfold itemRow. intros Hsame.
  apply (f_equal (λ result : Result,
                    match result with
                    | Normal (Right [CEq (_, TTup (RowFields fields _)) _]) => length fields
                    | _ => 0%nat
                    end)) in Hsame.
  cbv beta iota in Hsame.
  rewrite length_app, length_fmap, length_seqZ in Hsame.
  cbn [length] in Hsame. lia.
Qed.

(** An arithmetic operator is no special opcode. *)
Lemma other_opcodes_no_constraints_witness :
  ("iadd" ∉ specialOpcodes)
  ∧ specialConstraints samplePrinter "iadd" 7
        [(QuintInt 1 2, TInt); (QuintStr 2 "x", TStr); (QuintName 3 "y", TBool)]
        (mkVar "X")
      = Normal (Right []).
Proof.
  assert ("iadd" ∉ specialOpcodes) as Hother.
  { unfold specialOpcodes. rewrite !not_elem_of_cons. split_and!; try done.
    apply not_elem_of_nil. }
  split; [exact Hother|].
  by apply (other_opcodes_no_constraints samplePrinter "iadd").
Defined.

(** [item(t, 0)]: the single field is named ["-1"]. *)
Lemma item_nonpositive_index_witness :
  0 ≤ 0
  ∧ specialConstraints samplePrinter "item" 7
        [(QuintName 1 "t", TVar "t"); (QuintInt 2 0, TInt)] (mkVar "X")
      = Normal (Right
          [CEq (TVar "t",
                TTup (RowFields [mkField "-1" (TVar "X")] (RowVar "tail_X"))) 7]).
Proof.
  split; [done|].
  by apply (item_nonpositive_index samplePrinter 7 (QuintName 1 "t") (TVar "t") 2 0 TInt
              (mkVar "X")).
Defined.

(** [field(r, "x")] has the arity its rule destructures, and returns. *)
Lemma well_formed_calls_return_witness :
  wellFormedCall "field" [(QuintName 1 "r", TVar "r"); (QuintStr 2 "x", TStr)]
  ∧ returns (specialConstraints samplePrinter "field" 7
               [(QuintName 1 "r", TVar "r"); (QuintStr 2 "x", TStr)] (mkVar "X")).
Proof.
  assert (wellFormedCall "field" [(QuintName 1 "r", TVar "r"); (QuintStr 2 "x", TStr)])
    as Hwf by (vm_compute; lia).
  split; [exact Hwf|].
  by apply (well_formed_calls_return samplePrinter "field").
Defined.

(** C9 as stated fails: [Rec] applied to a single argument throws, and so
    does [field] applied to no argument. *)
Lemma odd_record_arguments_throw :
  specialConstraints samplePrinter "Rec" 7 [(QuintStr 1 "a", TStr)] (mkVar "X")
    = Throw TypeError
  ∧ specialConstraints samplePrinter "field" 7 [] (mkVar "X") = Throw TypeError
  ∧ ¬ returns (specialConstraints samplePrinter "Rec" 7 [(QuintStr 1 "a", TStr)] (mkVar "X")).
Proof.
  split_and!; [reflexivity | reflexivity |].
  by intros [result Hresult].
Qed.

(** ** Further properties of the rules *)

Section StringFacts.

Lemma string_app_cons (c : Ascii.ascii) (s t : string) :
  String c s +:+ t = String c (s +:+ t).
Proof. reflexivity. Qed.

Lemma string_app_length (s t : string) :
  String.length (s +:+ t) = (String.length s + String.length t)%nat.
Proof. induction s as [|c s IH]; simpl; [done|]. by f_equal. Qed.

Lemma string_app_inj (s t1 t2 : string) : s +:+ t1 = s +:+ t2 → t1 = t2.
Proof.
  induction s as [|c s IH]; [done|].
  rewrite !string_app_cons. intros [= ?]. auto.
Qed.



End StringFacts.

Section Names.

Variable X : QuintVarType.

Lemma placeholderName_inj (i j : Z) : placeholderName X i = placeholderName X j → i = j.
Proof.
  unfold placeholderName. intros Heq.
  apply (string_app_inj "tup_"), string_app_inj, (string_app_inj "_") in Heq.
  by apply (inj pretty).
Qed.

Lemma placeholderName_not_result (i : Z) : placeholderName X i ≠ name X.
Proof.
  intros Heq. apply (f_equal String.length) in Heq.
  unfold placeholderName in Heq. rewrite !string_app_length in Heq.
  simpl in Heq. lia.
Qed.

Lemma placeholderName_not_tail (i : Z) : placeholderName X i ≠ "tail_" +:+ name X.
Proof.
  unfold placeholderName. rewrite !string_app_cons. by intros [= ?].
Qed.

Lemma tail_not_result : "tail_" +:+ name X ≠ name X.
Proof.
  intros Heq. apply (f_equal String.length) in Heq.
  rewrite string_app_length in Heq. simpl in Heq. lia.
Qed.

End Names.

Section RowFacts.

Variable X : QuintVarType.

Lemma fieldName_placeholders (indices : list Z) :
  fieldName <$> (placeholder X <$> indices) = pretty <$> indices.
Proof. by rewrite <-list_fmap_compose. Qed.

Lemma fieldVariable_placeholders (indices : list Z) :
  omap fieldVariable (placeholder X <$> indices) = placeholderName X <$> indices.
Proof. induction indices as [|i indices IH]; [done|]. csimpl. by f_equal. Qed.

(** The row [item] builds over a duplicate-free list of indices that lacks
    [last]: its field names, and the variables it mentions, are pairwise
    distinct. *)
Lemma item_row_distinct (indices : list Z) (last : Z) :
  NoDup indices → last ∉ indices →
  let row := RowFields ((placeholder X <$> indices) ++ [mkField (pretty last) (varType X)])
                       (RowVar ("tail_" +:+ name X)) in
  NoDup (rowFieldNames row) ∧ NoDup (rowVariables row).
Proof.
  intros Hnodup Hlast. cbn [rowFieldNames rowVariables]. split.
  - rewrite app_nil_r, fmap_app, fieldName_placeholders.
    apply NoDup_app. split_and!.
    + by apply (NoDup_fmap_2 _).
    + intros name' Hin [->|[]%elem_of_nil]%elem_of_cons.
      apply list_elem_of_fmap in Hin as (i & Heq & Hin).
      simpl in Heq. by apply (inj pretty) in Heq as ->.
    + apply NoDup_singleton.
  - rewrite omap_app, fieldVariable_placeholders.
    change (omap fieldVariable [mkField (pretty last) (varType X)]) with [name X].
    rewrite <-app_assoc. cbn [app]. apply NoDup_app. split_and!.
    + apply NoDup_fmap_2_strong; [|done].
      intros i j _ _. apply placeholderName_inj.
    + intros name' (i & -> & _)%list_elem_of_fmap Hin.
      rewrite !elem_of_cons, elem_of_nil in Hin.
      destruct Hin as [Heq|[Heq|[]]].
      * by apply placeholderName_not_result in Heq.
      * by apply placeholderName_not_tail in Heq.
    + apply NoDup_cons. split; [|apply NoDup_singleton].
      rewrite list_elem_of_singleton. intros Heq. symmetry in Heq.
      by apply tail_not_result in Heq.
Qed.

End RowFacts.

Section FurtherProperties.

Variable expressionToString : QuintEx → string.

(** X1. [with] applied to three arguments whose second one is not a string
    literal fails with an error leaf: the location lists the three printed
    arguments, the message names the kind and the printed form of the
    offending expression. *)
Theorem with_rejects_non_literal
    id rec recType e eT value valueType (X : QuintVarType) :
  kind e ≠ "str" →
  specialConstraints expressionToString "with" id
      [(rec, recType); (e, eT); (value, valueType)] X
    = Normal (Left (OneError
        (buildErrorLeaf
           ("Generating record constraints for "
              +:+ join [expressionToString rec; expressionToString e;
                        expressionToString value])
           ("Record field name must be a string expression but is "
              +:+ kind e +:+ ": " +:+ expressionToString e)))).
Proof. intros Hkind. by destruct e. Qed.

(** X2. Whatever the opcode and the arguments, the constraints of a
    successful call are all equalities that carry the identifier given to
    the call; there are at most two of them, and there is none exactly when
    the opcode is not one of the six special ones. *)
Theorem constraints_are_tagged_equalities
    (opcode : string) id (args : list TypedArg) (X : QuintVarType) constraints :
  specialConstraints expressionToString opcode id args X = Normal (Right constraints) →
  Forall (λ c, ∃ types, c = CEq types id) constraints
  ∧ (length constraints ≤ 2)%nat
  ∧ (constraints = [] ↔ opcode ∉ specialOpcodes).
Proof.
  assert (∀ (c1 : Constraint) cs,
            (c1 :: cs = [] ↔ opcode ∉ specialOpcodes) ↔ opcode ∈ specialOpcodes)
    as Hsome.
  { intros c1 cs. split; [|by intros ?; split].
    intros [_ Hnil]. destruct (decide (opcode ∈ specialOpcodes)); [done|].
    by specialize (Hnil ltac:(done)). }
  unfold specialConstraints.
  destruct (String.eqb_spec opcode "Rec") as [->|HRec].
  { destruct (Nat.Even_or_Odd (length args)) as [Heven|Hodd].
    - rewrite recordConstructorConstraints_even by done.
      destruct (lefts _); intros [= <-]. split_and!; [|simpl; lia|].
      + repeat constructor. by eexists.
      + apply Hsome. unfold specialOpcodes. by repeat constructor.
    - by rewrite recordConstructorConstraints_odd. }
  destruct (String.eqb_spec opcode "field") as [->|Hfield].
  { destruct args as [|[] [|[[] ?] ?]]; intros [= <-].
    split_and!; [|simpl; lia|].
    - repeat constructor. by eexists.
    - apply Hsome. unfold specialOpcodes. by repeat constructor. }
  destruct (String.eqb_spec opcode "fieldNames") as [->|HfieldNames].
  { destruct args as [|[] ?]; intros [= <-].
    split_and!; [|simpl; lia|].
    - repeat constructor; by eexists.
    - apply Hsome. unfold specialOpcodes. by repeat constructor. }
  destruct (String.eqb_spec opcode "with") as [->|Hwith].
  { destruct args as [|[] [|[[] ?] [|[] ?]]]; intros [= <-].
    split_and!; [|simpl; lia|].
    - repeat constructor; by eexists.
    - apply Hsome. unfold specialOpcodes. by repeat constructor. }
  destruct (String.eqb_spec opcode "Tup") as [->|HTup].
  { intros [= <-]. split_and!; [|simpl; lia|].
    - repeat constructor. by eexists.
    - apply Hsome. unfold specialOpcodes. by repeat constructor. }
  destruct (String.eqb_spec opcode "item") as [->|Hitem].
  - assert ("item" ∈ specialOpcodes) as Hspecial
      by (unfold specialOpcodes; by repeat constructor).
    destruct args as [|a [|[e T] rest]]; [by intros [=] | by destruct a; intros [=] |].
    destruct (decide (kind e = "int")) as [(iid & N & ->)%kind_int|Hint].
    + rewrite itemConstraints_int. case_bool_decide; intros [= <-].
      split_and!; [|simpl; lia|by apply Hsome].
      repeat constructor. by eexists.
    + destruct a, e; try done; by intros [=].
  - intros [= <-]. split_and!; [constructor | simpl; lia |].
    split; [|done]. intros _. unfold specialOpcodes.
    rewrite !not_elem_of_cons. split_and!; try done. apply not_elem_of_nil.
Qed.

(** X3. Whatever the opcode and the arguments, the error of a failed call
    holds at least one error tree, and each of them is a leaf whose
    location is the text for record constraints followed by the printed
    arguments of the call, also when the opcode is the tuple operator
    [item]. *)
Theorem errors_are_located_leaves
    (opcode : string) id (args : list TypedArg) (X : QuintVarType) error :
  specialConstraints expressionToString opcode id args X = Normal (Left error) →
  errorTrees error ≠ []
  ∧ Forall (λ tree, ∃ message,
              tree = buildErrorLeaf
                       ("Generating record constraints for "
                          +:+ join (expressionToString ∘ fst <$> args))
                       message)
           (errorTrees error).
Proof.
  unfold specialConstraints.
  destruct (String.eqb opcode "Rec").
  { destruct (Nat.Even_or_Odd (length args)) as [Heven|Hodd].
    - rewrite recordConstructorConstraints_even by done.
      rewrite lefts_keyChecks by done.
      destruct (filter _ _) as [|key keys']; intros [= <-]; simpl.
      split; [done|]. constructor; [by eexists|].
      apply Forall_fmap, Forall_true. intros key'. by eexists.
    - by rewrite recordConstructorConstraints_odd. }
  destruct (String.eqb opcode "field").
  { destruct args as [|[] [|[[] ?] ?]]; intros [= <-];
      (split; [done|]); repeat constructor; by eexists. }
  destruct (String.eqb opcode "fieldNames").
  { by destruct args as [|[] ?]. }
  destruct (String.eqb opcode "with").
  { destruct args as [|[] [|[[] ?] [|[] ?]]]; intros [= <-];
      (split; [done|]); repeat constructor; by eexists. }
  destruct (String.eqb opcode "Tup"); [done|].
  destruct (String.eqb opcode "item"); [|done].
  destruct args as [|a [|[e T] rest]]; [by intros [=] | by destruct a; intros [=] |].
  destruct (decide (kind e = "int")) as [(iid & N & ->)%kind_int|Hint].
  - rewrite itemConstraints_int. by case_bool_decide.
  - destruct a, e; try done; intros [= <-];
      (split; [done|]); repeat constructor; by eexists.
Qed.

(** X4. [field], [fieldNames], [with] and [item] look at their first two,
    one, three and two arguments only: when a call succeeds, the same call
    with further arguments appended succeeds with the same constraints. *)
Theorem surplus_arguments_are_ignored
    (opcode : string) id (args extra : list TypedArg) (X : QuintVarType) constraints :
  opcode ∈ ["field"; "fieldNames"; "with"; "item"] →
  specialConstraints expressionToString opcode id args X = Normal (Right constraints) →
  specialConstraints expressionToString opcode id (args ++ extra) X
    = Normal (Right constraints).
Proof.
  rewrite !elem_of_cons, elem_of_nil. intros [->|[->|[->|[->|[]]]]].
  - destruct args as [|[] [|[[] ?] ?]]; by intros [= <-].
  - destruct args as [|[] ?]; by intros [= <-].
  - destruct args as [|[] [|[[] ?] [|[] ?]]]; by intros [= <-].
  - destruct args as [|a [|[e T] rest]]; [by intros [=] | by destruct a; intros [=] |].
    destruct (decide (kind e = "int")) as [(iid & N & ->)%kind_int|Hint].
    + change (specialConstraints expressionToString "item" id
                ((a :: (QuintInt iid N, T) :: rest) ++ extra) X)
        with (itemConstraints expressionToString id
                (a :: (QuintInt iid N, T) :: (rest ++ extra)) X).
      change (specialConstraints expressionToString "item" id
                (a :: (QuintInt iid N, T) :: rest) X)
        with (itemConstraints expressionToString id
                (a :: (QuintInt iid N, T) :: rest) X).
      by rewrite !itemConstraints_int.
    + destruct a, e; try done; by intros [=].
Qed.

(** X6. [Rec] applied to an odd number of arguments throws a TypeError,
    whatever the arguments are: no validation error is returned, also when
    a key of a complete pair is not a literal. *)
Theorem record_odd_arguments_throw id (args : list TypedArg) (X : QuintVarType) :
  Nat.Odd (length args) →
  specialConstraints expressionToString "Rec" id args X = Throw TypeError.
Proof. intros Hodd. by apply recordConstructorConstraints_odd. Qed.

(** X7. [item] with an integer literal [N] such that [N - 1] exceeds the
    largest safe integer [2^53 - 1] succeeds with a row that has no
    placeholder: its single field is named by the decimal form of [N - 1]
    and typed with the result variable. *)
Theorem item_index_beyond_safe_integers
    id tup tupType iid (N : Z) T (X : QuintVarType) :
  MAX_SAFE_INTEGER < N - 1 →
  specialConstraints expressionToString "item" id
      [(tup, tupType); (QuintInt iid N, T)] X
    = Normal (Right
        [CEq (tupType,
              TTup (RowFields [mkField (pretty (N - 1)) (varType X)]
                              (RowVar ("tail_" +:+ name X)))) id]).
Proof.
  intros HN.
  change (specialConstraints expressionToString "item" id
            [(tup, tupType); (QuintInt iid N, T)] X)
    with (itemConstraints expressionToString id [(tup, tupType); (QuintInt iid N, T)] X).
  by rewrite itemConstraints_int, !bool_decide_eq_false_2 by lia.
Qed.

(** X8. [item] with an integer literal [N] such that
    [2^32 - 1 ≤ N - 1 ≤ 2^53 - 1] throws a RangeError: the placeholders
    fill the array of fields, and the field of the result variable cannot
    be pushed onto it. *)
Theorem item_index_fills_the_array
    id tup tupType iid (N : Z) T (X : QuintVarType) :
  MAX_ARRAY_LENGTH ≤ N - 1 ≤ MAX_SAFE_INTEGER →
  specialConstraints expressionToString "item" id
      [(tup, tupType); (QuintInt iid N, T)] X
    = Throw RangeError.
Proof.
  intros HN.
  change (specialConstraints expressionToString "item" id
            [(tup, tupType); (QuintInt iid N, T)] X)
    with (itemConstraints expressionToString id [(tup, tupType); (QuintInt iid N, T)] X).
  by rewrite itemConstraints_int, bool_decide_eq_true_2.
Qed.

(** X9. The tuple row [Tup] builds never names a field twice. *)
Theorem tuple_constructor_distinct_fields
    id (args : list TypedArg) (X : QuintVarType) :
  ∃ row,
    specialConstraints expressionToString "Tup" id args X
      = Normal (Right [CEq (TTup row, varType X) id])
    ∧ NoDup (rowFieldNames row).
Proof.
  eexists. split; [reflexivity|].
  cbn [rowFieldNames]. rewrite app_nil_r, fmap_imap.
  rewrite (imap_ext _ (λ i _, pretty i)) by (by intros i [e T] _).
  rewrite imap_seq_0. apply (NoDup_fmap_2 _), NoDup_seq.
Qed.

(** X10. Whenever [item] with an integer literal succeeds, the row it
    builds never names a field twice, and the variables the row mentions
    (the placeholders, the result variable and the tail variable) are
    pairwise distinct. *)
Theorem item_row_names_are_distinct
    id tup tupType iid (N : Z) T (X : QuintVarType) left row id' :
  specialConstraints expressionToString "item" id
      [(tup, tupType); (QuintInt iid N, T)] X
    = Normal (Right [CEq (left, TTup row) id']) →
  NoDup (rowFieldNames row) ∧ NoDup (rowVariables row).
Proof.
  change (specialConstraints expressionToString "item" id
            [(tup, tupType); (QuintInt iid N, T)] X)
    with (itemConstraints expressionToString id [(tup, tupType); (QuintInt iid N, T)] X).
  rewrite itemConstraints_int. case_bool_decide; [done|].
  intros [= _ <- _]. apply item_row_distinct.
  - case_bool_decide; [apply NoDup_seqZ | apply NoDup_nil_2].
  - case_bool_decide; [rewrite elem_of_seqZ; lia | apply not_elem_of_nil].
Qed.

(** X13. In the row [field] builds, the tail variable differs from the
    result variable: the two variables the row mentions are distinct. *)
Theorem field_row_variables_are_distinct
    id rec recType fid f fT (X : QuintVarType) :
  ∃ row,
    specialConstraints expressionToString "field" id
        [(rec, recType); (QuintStr fid f, fT)] X
      = Normal (Right [CEq (recType, TRec row) id])
    ∧ rowVariables row = [name X; "tail_" +:+ name X]
    ∧ NoDup (rowVariables row).
Proof.
  eexists. split_and!; [reflexivity | reflexivity |].
  cbn [rowVariables omap list_omap fieldVariable fieldType varType app].
  apply NoDup_cons. split; [|apply NoDup_singleton].
  rewrite list_elem_of_singleton. intros Heq. symmetry in Heq.
  by apply tail_not_result in Heq.
Qed.

End FurtherProperties.

Section PrintingFacts.

Variable typeToString : QuintType → string.


End PrintingFacts.

(** X12. What a successful call returns does not depend on the printer of
    expressions: the printer only shapes the text of errors. *)
Theorem success_is_independent_of_the_printer
    (printer1 printer2 : QuintEx → string)
    (opcode : string) id (args : list TypedArg) (X : QuintVarType) constraints :
  specialConstraints printer1 opcode id args X = Normal (Right constraints) →
  specialConstraints printer2 opcode id args X = Normal (Right constraints).
Proof.
  unfold specialConstraints.
  destruct (String.eqb opcode "Rec").
  { destruct (Nat.Even_or_Odd (length args)) as [Heven|Hodd];
      [|by rewrite recordConstructorConstraints_odd].
    rewrite !recordConstructorConstraints_even, !lefts_keyChecks by done.
    destruct (filter _ _) as [|key keys'] eqn:Hfilter; [|done].
    assert (Forall (λ key, kind key = "str") (keys args)) as Hkeys.
    { apply Forall_forall. intros key Hkey. apply dec_stable. intros Hkind.
      eapply filter_nil_not_elem_of; [exact Hfilter | exact Hkind | exact Hkey]. }
    by rewrite !rights_keyChecks. }
  destruct (String.eqb opcode "field").
  { destruct args as [|[] [|[[] ?] ?]]; by intros [= <-]. }
  destruct (String.eqb opcode "fieldNames"); [done|].
  destruct (String.eqb opcode "with").
  { destruct args as [|[] [|[[] ?] [|[] ?]]]; by intros [= <-]. }
  destruct (String.eqb opcode "Tup"); [done|].
  destruct (String.eqb opcode "item"); [|done].
  destruct args as [|a [|[e T] rest]]; [by intros [=] | by destruct a; intros [=] |].
  destruct (decide (kind e = "int")) as [(iid & N & ->)%kind_int|Hint].
  - by rewrite !itemConstraints_int.
  - destruct a, e; try done; by intros [=].
Qed.

(** ** Closed instances of the further properties *)

(** [with(r, f, 5)] where [f] is a name. *)
Lemma with_rejects_non_literal_witness :
  kind (QuintName 2 "f") ≠ "str"
  ∧ specialConstraints samplePrinter "with" 7
        [(QuintName 1 "r", TVar "r"); (QuintName 2 "f", TStr); (QuintInt 3 5, TInt)]
        (mkVar "X")
      = Normal (Left (OneError
          (buildErrorLeaf
             "Generating record constraints for r,f,5"
             "Record field name must be a string expression but is name: f"))).
Proof.
  split; [done|].
  by apply (with_rejects_non_literal samplePrinter 7 (QuintName 1 "r") (TVar "r")
              (QuintName 2 "f") TStr (QuintInt 3 5) TInt (mkVar "X")).
Defined.

(** The two constraints of [fieldNames(r)] carry the identifier [7]. *)
Lemma constraints_are_tagged_equalities_witness :
  specialConstraints samplePrinter "fieldNames" 7 [(QuintName 1 "r", TVar "r")] (mkVar "X")
    = Normal (Right [CEq (TVar "X", TSet TStr) 7;
                     CEq (TVar "r", TRec (RowVar "rec_X")) 7])
  ∧ Forall (λ c, ∃ types, c = CEq types 7)
           [CEq (TVar "X", TSet TStr) 7; CEq (TVar "r", TRec (RowVar "rec_X")) 7]
  ∧ (length [CEq (TVar "X", TSet TStr) 7; CEq (TVar "r", TRec (RowVar "rec_X")) 7]
       ≤ 2)%nat
  ∧ ([CEq (TVar "X", TSet TStr) 7; CEq (TVar "r", TRec (RowVar "rec_X")) 7] = []
     ↔ "fieldNames" ∉ specialOpcodes).
Proof.
  split; [reflexivity|].
  by apply (constraints_are_tagged_equalities samplePrinter "fieldNames" 7
              [(QuintName 1 "r", TVar "r")] (mkVar "X")).
Defined.

(** [item(t, i)] where [i] is a name: the location speaks of record
    constraints. *)
Lemma errors_are_located_leaves_witness :
  specialConstraints samplePrinter "item" 7
      [(QuintName 1 "t", TVar "t"); (QuintName 2 "i", TInt)] (mkVar "X")
    = Normal (Left (OneError
        (buildErrorLeaf
           "Generating record constraints for t,i"
           "Tup field index must be an int expression but is name: i")))
  ∧ [buildErrorLeaf
       "Generating record constraints for t,i"
       "Tup field index must be an int expression but is name: i"] ≠ []
  ∧ Forall (λ tree, ∃ message,
              tree = buildErrorLeaf "Generating record constraints for t,i" message)
           [buildErrorLeaf
              "Generating record constraints for t,i"
              "Tup field index must be an int expression but is name: i"].
Proof.
  split; [reflexivity|].
  by apply (errors_are_located_leaves samplePrinter "item" 7
              [(QuintName 1 "t", TVar "t"); (QuintName 2 "i", TInt)] (mkVar "X")
              (OneError
                 (buildErrorLeaf
                    "Generating record constraints for t,i"
                    "Tup field index must be an int expression but is name: i"))).
Defined.

(** [field(r, "x", 42)] is typed as [field(r, "x")]. *)
Lemma surplus_arguments_are_ignored_witness :
  ("field" ∈ ["field"; "fieldNames"; "with"; "item"]
   ∧ specialConstraints samplePrinter "field" 7
         [(QuintName 1 "r", TVar "r"); (QuintStr 2 "x", TStr)] (mkVar "X")
       = Normal (Right
           [CEq (TVar "r", TRec (RowFields [mkField "x" (TVar "X")] (RowVar "tail_X"))) 7]))
  ∧ specialConstraints samplePrinter "field" 7
        ([(QuintName 1 "r", TVar "r"); (QuintStr 2 "x", TStr)] ++ [(QuintInt 3 42, TInt)])
        (mkVar "X")
      = Normal (Right
          [CEq (TVar "r", TRec (RowFields [mkField "x" (TVar "X")] (RowVar "tail_X"))) 7]).
Proof.
  assert ("field" ∈ ["field"; "fieldNames"; "with"; "item"]) as Hopcode by constructor.
  split; [by split|].
  by apply (surplus_arguments_are_ignored samplePrinter "field" 7
              [(QuintName 1 "r", TVar "r"); (QuintStr 2 "x", TStr)]
              [(QuintInt 3 42, TInt)] (mkVar "X")).
Defined.

(** [with(r, "x")] lacks its third argument. *)
Lemma ill_formed_calls_throw_witness :
  ¬ wellFormedCall "with" [(QuintName 1 "r", TVar "r"); (QuintStr 2 "x", TStr)]
  ∧ throws (specialConstraints samplePrinter "with" 7
              [(QuintName 1 "r", TVar "r"); (QuintStr 2 "x", TStr)] (mkVar "X")).
Proof.
  assert (¬ wellFormedCall "with" [(QuintName 1 "r", TVar "r"); (QuintStr 2 "x", TStr)])
    as Hill by (vm_compute; lia).
  split; [exact Hill|].
  by apply (ill_formed_calls_throw samplePrinter "with").
Defined.

(** [Rec(a, 1, "b")]: the key [a] is a name, and yet the call throws. *)
Lemma record_odd_arguments_throw_witness :
  Nat.Odd (length [(QuintName 1 "a", TStr); (QuintInt 2 1, TInt); (QuintStr 3 "b", TStr)])
  ∧ specialConstraints samplePrinter "Rec" 7
        [(QuintName 1 "a", TStr); (QuintInt 2 1, TInt); (QuintStr 3 "b", TStr)]
        (mkVar "X")
      = Throw TypeError.
Proof.
  assert (Nat.Odd 3) as Hodd by (by exists 1%nat).
  split; [exact Hodd|].
  by apply (record_odd_arguments_throw samplePrinter 7
              [(QuintName 1 "a", TStr); (QuintInt 2 1, TInt); (QuintStr 3 "b", TStr)]).
Defined.

(** [item(t, 2^60)]. *)
Lemma item_index_beyond_safe_integers_witness :
  MAX_SAFE_INTEGER < 1152921504606846976 - 1
  ∧ specialConstraints samplePrinter "item" 7
        [(QuintName 1 "t", TVar "t"); (QuintInt 2 1152921504606846976, TInt)] (mkVar "X")
      = Normal (Right
          [CEq (TVar "t",
                TTup (RowFields [mkField "1152921504606846975" (TVar "X")]
                                (RowVar "tail_X"))) 7]).
Proof.
  split; [done|].
  by apply (item_index_beyond_safe_integers samplePrinter 7 (QuintName 1 "t") (TVar "t")
              2 1152921504606846976 TInt (mkVar "X")).
Defined.

(** [item(t, 2^32)]. *)
Lemma item_index_fills_the_array_witness :
  MAX_ARRAY_LENGTH ≤ 4294967296 - 1 ≤ MAX_SAFE_INTEGER
  ∧ specialConstraints samplePrinter "item" 7
        [(QuintName 1 "t", TVar "t"); (QuintInt 2 4294967296, TInt)] (mkVar "X")
      = Throw RangeError.
Proof.
  assert (MAX_ARRAY_LENGTH ≤ 4294967296 - 1 ≤ MAX_SAFE_INTEGER) as Hband by done.
  split; [exact Hband|].
  exact (item_index_fills_the_array samplePrinter 7 (QuintName 1 "t") (TVar "t")
           2 4294967296 TInt (mkVar "X") Hband).
Defined.

(** [item(t, 3)]. *)
Lemma item_row_names_are_distinct_witness :
  specialConstraints samplePrinter "item" 7
      [(QuintName 1 "t", TVar "t"); (QuintInt 2 3, TInt)] (mkVar "X")
    = Normal (Right
        [CEq (TVar "t",
              TTup (RowFields
                      [mkField "0" (TVar "tup_X_0");
                       mkField "1" (TVar "tup_X_1");
                       mkField "2" (TVar "X")]
                      (RowVar "tail_X"))) 7])
  ∧ NoDup ["0"; "1"; "2"]
  ∧ NoDup ["tup_X_0"; "tup_X_1"; "X"; "tail_X"].
Proof.
  split; [reflexivity|].
  by apply (item_row_names_are_distinct samplePrinter 7 (QuintName 1 "t") (TVar "t")
              2 3 TInt (mkVar "X") (TVar "t")
              (RowFields
                 [mkField "0" (TVar "tup_X_0");
                  mkField "1" (TVar "tup_X_1");
                  mkField "2" (TVar "X")]
                 (RowVar "tail_X")) 7).
Defined.


(** [field(r, "x")] under two printers. *)
Lemma success_is_independent_of_the_printer_witness :
  specialConstraints samplePrinter "field" 7
      [(QuintName 1 "r", TVar "r"); (QuintStr 2 "x", TStr)] (mkVar "X")
    = Normal (Right
        [CEq (TVar "r", TRec (RowFields [mkField "x" (TVar "X")] (RowVar "tail_X"))) 7])
  ∧ specialConstraints (λ _, "") "field" 7
        [(QuintName 1 "r", TVar "r"); (QuintStr 2 "x", TStr)] (mkVar "X")
      = Normal (Right
          [CEq (TVar "r", TRec (RowFields [mkField "x" (TVar "X")] (RowVar "tail_X"))) 7]).
Proof.
  split; [reflexivity|].
  by apply (success_is_independent_of_the_printer samplePrinter (λ _, "") "field").
Defined.
